(** * Hey Jubilee wake-word listener: the debounced trigger loop and [main]

    A shallow embedding of [scripts/hey_jubilee.py].  The script is a
    sequential program whose interesting behaviour is the order of its
    calls into three external libraries (the keyword engine, the audio
    recorder, the hot-key injector).  Those calls are recorded in a trace
    of [effect]s; what the libraries answer is an input of the model.

    Clock readings ([time.time()]) are exact rationals here.  The script
    works on binary64 floats; every comparison below is the script's
    comparison carried out without rounding. *)

From Stdlib Require Import QArith ZArith List String Bool Lia Lqa.
Import ListNotations.

Local Open Scope Q_scope.

(** ** Configuration constants *)

(** [DEBOUNCE_SECONDS = 2.0] *)
Definition DEBOUNCE_SECONDS : Q := 2.

(** [SENSITIVITY = 0.8] *)
Definition SENSITIVITY : Q := 0.8.

(** [ACCESS_KEY = os.environ.get("PICOVOICE_ACCESS_KEY", <literal>)] *)
Definition ACCESS_KEY (environ : option string) : string :=
  match environ with
  | Some k => k
  | None => "DoI6JQcDVhQWGRSMHI5I4curg7ymIKKJ5xHugzf7g3lGWeGUvIAnSA=="%string
  end.

(** The literal the credential is compared with in [main]. *)
Definition PLACEHOLDER_KEY : string := "YOUR_ACCESS_KEY_HERE"%string.

(** ** Observable calls *)

(** How the detector is asked to find its model: a model file
    ([keyword_paths=[p]]) or a built-in keyword ([keywords=[k]]). *)
Inductive keyword_choice :=
| KeywordPaths (path : string)
| Keywords (name : string).

(** Lines printed by the script, one constructor per [print] group. *)
Inductive message :=
| MsgDevicesHeader
| MsgDevices (devices : list string)
| MsgSetupRequired
| MsgLoadingCustom (path : string)
| MsgUsingJarvis
| MsgLoadingCustomFromEnv (path : string)
| MsgNoCustomKeyword
| MsgActivationError
| MsgInvalidArgument
| MsgPorcupineError
| MsgRecorderError
| MsgBanner (wake_word_name : string)
| MsgStopping
| MsgGoodbye.

(** Calls that leave the script.  [OnWakeWordDetected] takes no argument
    in the source; the rational it carries here is the clock reading of
    the iteration that invoked it, kept so that firing times can be read
    back from a trace. *)
Inductive effect :=
| Print (m : message)
| GetAvailableDevices
| PorcupineCreate (access_key : string) (kw : keyword_choice) (sensitivity : Q)
| RecorderCreate (device_index : Z) (frame_length : Z)
| RecorderStart
| RecorderRead
| PorcupineProcess
| OnWakeWordDetected (current_time : Q)
| RecorderStop
| PorcupineDelete.

(** ** The detection loop (source lines 204-215) *)

(** What one pass through the loop body meets.  [Detection k t]: a pass
    that ran to its end; the frame was read and processed, the engine
    answered [k], the clock reads [t] (consulted only when [k >= 0]),
    and the action, where it was invoked, returned.  [KeyboardInterrupt]
    and [Fault]: [recorder.read()] raised, the first by Ctrl+C, the
    second by any other exception.  An exception out of
    [porcupine.process()] or out of the action is not among the events:
    the model leaves the loop from [recorder.read()] only. *)
Inductive event :=
| Detection (keyword_index : Z) (current_time : Q)
| KeyboardInterrupt
| Fault.

(** How the run over a finite list of events ends: still inside
    [while True] (the events are a prefix of a longer run), or left
    through one of the two exceptions. *)
Inductive loop_exit := Listening | Interrupted | Crashed.

(** [a > b] on clock values, as a boolean. *)
Definition Qgtb (a b : Q) : bool := negb (Qle_bool a b).

(** The body of [if keyword_index >= 0:] together with the test itself:
    the new [last_trigger_time] and the calls made. *)
Definition on_detection (last_trigger_time : Q) (keyword_index : Z)
    (current_time : Q) : Q * list effect :=
  if (0 <=? keyword_index)%Z then
    if Qgtb (current_time - last_trigger_time) DEBOUNCE_SECONDS
    then (current_time, [OnWakeWordDetected current_time])
    else (last_trigger_time, [])
  else (last_trigger_time, []).

(** [while True: ...] run against the events the environment delivers. *)
Fixpoint loop (last_trigger_time : Q) (evs : list event)
  : list effect * Q * loop_exit :=
  match evs with
  | [] => ([], last_trigger_time, Listening)
  | Detection keyword_index current_time :: evs' =>
      let '(last', acts) :=
        on_detection last_trigger_time keyword_index current_time in
      let '(tr, final, ex) := loop last' evs' in
      (RecorderRead :: PorcupineProcess :: acts ++ tr, final, ex)
  | KeyboardInterrupt :: _ => ([RecorderRead], last_trigger_time, Interrupted)
  | Fault :: _ => ([RecorderRead], last_trigger_time, Crashed)
  end.

(** [last_trigger_time = 0] *)
Definition initial_trigger_time : Q := 0.

(** The clock readings at which the action was invoked, in order. *)
Fixpoint fires (tr : list effect) : list Q :=
  match tr with
  | [] => []
  | OnWakeWordDetected t :: tr' => t :: fires tr'
  | _ :: tr' => fires tr'
  end.

Definition loop_trace (last : Q) (evs : list event) : list effect :=
  fst (fst (loop last evs)).

Definition loop_last (last : Q) (evs : list event) : Q :=
  snd (fst (loop last evs)).

(** A detection the engine reports as a match / as no match. *)
Definition is_match (e : event) : bool :=
  match e with
  | Detection k _ => (0 <=? k)%Z
  | _ => false
  end.

Definition is_no_match (e : event) : bool :=
  match e with
  | Detection k _ => (k <? 0)%Z
  | _ => false
  end.

(** ** Command line and environment (source lines 37-42, 82-89) *)

(** The two variables read from [os.environ]. *)
Record environ := {
  PICOVOICE_ACCESS_KEY : option string;
  JUBILEE_KEYWORD_PATH : option string
}.

(** [CUSTOM_KEYWORD_PATH = os.environ.get("JUBILEE_KEYWORD_PATH", None)] *)
Definition CUSTOM_KEYWORD_PATH (env : environ) : option string :=
  JUBILEE_KEYWORD_PATH env.

(** The options as typed: [None] where an option is not on the command
    line. *)
Record cli := {
  opt_list_devices : bool;
  opt_device : option Z;
  opt_sensitivity : option Q;
  opt_access_key : option string;
  opt_keyword_path : option string;
  opt_use_jarvis : bool
}.

(** The namespace [parser.parse_args()] returns. *)
Record args := {
  list_devices : bool;
  device : Z;
  sensitivity : Q;
  access_key : string;
  keyword_path : option string;
  use_jarvis : bool
}.

Definition or_default {A : Type} (o : option A) (d : A) : A :=
  match o with
  | Some x => x
  | None => d
  end.

(** The defaults of the six [add_argument] calls. *)
Definition parse_args (env : environ) (c : cli) : args := {|
  list_devices := opt_list_devices c;
  device := or_default (opt_device c) (-1)%Z;
  sensitivity := or_default (opt_sensitivity c) SENSITIVITY;
  access_key := or_default (opt_access_key c) (ACCESS_KEY (PICOVOICE_ACCESS_KEY env));
  keyword_path :=
    match opt_keyword_path c with
    | Some p => Some p
    | None => CUSTOM_KEYWORD_PATH env
    end;
  use_jarvis := opt_use_jarvis c
|}.

(** ** The external libraries *)

(** The exception classes [main] tells apart when [pvporcupine.create]
    raises; [OtherError] is any other subclass of [Exception]. *)
Inductive create_error :=
| PorcupineActivationError
| PorcupineInvalidArgumentError
| OtherError.

(** What [pvporcupine.create] answers: a handle, of which the script
    reads only [frame_length], or an exception. *)
Inductive create_result :=
| Created (frame_length : Z)
| CreateFailed (e : create_error).

(** Everything outside the script that one run of [main] consults. *)
Record world := {
  os_environ : environ;
  (** [os.path.exists] *)
  path_exists : string -> bool;
  (** [PvRecorder.get_available_devices()] *)
  get_available_devices : list string;
  (** [pvporcupine.create(access_key, keyword_paths | keywords, sensitivities)] *)
  pvporcupine_create : string -> keyword_choice -> Q -> create_result;
  (** [PvRecorder(device_index, frame_length)]: [true] when the
      constructor returns, [false] when it raises *)
  PvRecorder_init : Z -> Z -> bool;
  (** whether [recorder.start()] raises *)
  recorder_start_raises : bool;
  (** what the loop meets, pass by pass *)
  frames : list event;
  (** whether [recorder.stop()] raises *)
  recorder_stop_raises : bool;
  (** whether [porcupine.delete()] raises *)
  porcupine_delete_raises : bool
}.

(** How a run of [main] ends: a normal return (exit status 0), an
    exception that leaves [main], or still inside the loop when the
    given events are used up. *)
Inductive outcome := Returned | Raised | StillListening.

(** ** Keyword selection (source lines 131-167) *)

(** [p and os.path.exists(p)]: the path when the test succeeds.  [None]
    and the empty string are false in Python, and [and] does not
    evaluate its right side then. *)
Definition existing_path (ex : string -> bool) (p : option string)
  : option string :=
  match p with
  | Some s => if negb (s =? "")%string && ex s then Some s else None
  | None => None
  end.

Definition jarvis : keyword_choice := Keywords "jarvis".

(** The [if / elif / else] in front of the three [pvporcupine.create]
    calls: the line printed, the keyword argument, [wake_word_name]. *)
Definition select_keyword (ex : string -> bool) (custom : option string)
    (a : args) : message * keyword_choice * string :=
  match existing_path ex (keyword_path a) with
  | Some p => (MsgLoadingCustom p, KeywordPaths p, "Hey Jubilee"%string)
  | None =>
      if use_jarvis a then (MsgUsingJarvis, jarvis, "Jarvis"%string)
      else
        match existing_path ex custom with
        | Some p => (MsgLoadingCustomFromEnv p, KeywordPaths p, "Hey Jubilee"%string)
        | None => (MsgNoCustomKeyword, jarvis, "Jarvis"%string)
        end
  end.

(** Which of the selection lines report an error: none does. *)
Definition is_error_message (m : message) : bool :=
  match m with
  | MsgActivationError | MsgInvalidArgument | MsgPorcupineError
  | MsgRecorderError => true
  | _ => false
  end.

(** ** [main] *)

(** The three [except] clauses after the detector is created. *)
Definition create_error_message (e : create_error) : message :=
  match e with
  | PorcupineActivationError => MsgActivationError
  | PorcupineInvalidArgumentError => MsgInvalidArgument
  | OtherError => MsgPorcupineError
  end.

(** [list_audio_devices()] *)
Definition list_audio_devices (w : world) : list effect :=
  [Print MsgDevicesHeader; GetAvailableDevices;
   Print (MsgDevices (get_available_devices w))].

(** The [finally] block: the calls made, and whether the block ran to
    its end.  The two releases are consecutive statements, so an
    exception out of the first leaves the block. *)
Definition cleanup (w : world) : list effect * bool :=
  if recorder_stop_raises w then ([RecorderStop], false)
  else if porcupine_delete_raises w then ([RecorderStop; PorcupineDelete], false)
  else ([RecorderStop; PorcupineDelete; Print MsgGoodbye], true).

(** From [recorder.start()] to the end of [main]. *)
Definition listen (w : world) : list effect * outcome :=
  if recorder_start_raises w then ([RecorderStart], Raised)
  else
    let '(tr, _, ex) := loop initial_trigger_time (frames w) in
    match ex with
    | Listening => (RecorderStart :: tr, StillListening)
    | Interrupted =>
        let '(fin, completed) := cleanup w in
        (RecorderStart :: tr ++ Print MsgStopping :: fin,
         if completed then Returned else Raised)
    | Crashed =>
        let '(fin, _) := cleanup w in
        (RecorderStart :: tr ++ fin, Raised)
    end.

(** The detector and recorder set-up and what follows it (source lines
    129-222). *)
Definition start_detector (w : world) (a : args) : list effect * outcome :=
  let '(line, kw, wake_word_name) :=
    select_keyword (path_exists w) (CUSTOM_KEYWORD_PATH (os_environ w)) a in
  let request :=
    [Print line; PorcupineCreate (access_key a) kw (sensitivity a)] in
  match pvporcupine_create w (access_key a) kw (sensitivity a) with
  | CreateFailed e => (request ++ [Print (create_error_message e)], Returned)
  | Created frame_length =>
      if PvRecorder_init w (device a) frame_length then
        let '(tr, out) := listen w in
        (request ++ RecorderCreate (device a) frame_length
                 :: Print (MsgBanner wake_word_name) :: tr, out)
      else
        (request ++ [RecorderCreate (device a) frame_length;
                     Print MsgRecorderError; PorcupineDelete],
         if porcupine_delete_raises w then Raised else Returned)
  end.

Definition main (w : world) (c : cli) : list effect * outcome :=
  let a := parse_args (os_environ w) c in
  if list_devices a then (list_audio_devices w, Returned)
  else if (access_key a =? PLACEHOLDER_KEY)%string
  then ([Print MsgSetupRequired], Returned)
  else start_detector w a.

(** ** Reading traces *)

(** Calls that belong to the running loop. *)
Definition loop_effect (e : effect) : bool :=
  match e with
  | RecorderStart | RecorderRead | PorcupineProcess
  | OnWakeWordDetected _ => true
  | _ => false
  end.

(** Calls that acquire the detector or the recorder. *)
Definition acquisition (e : effect) : bool :=
  match e with
  | PorcupineCreate _ _ _ | RecorderCreate _ _ => true
  | _ => false
  end.

(** Consecutive firing times, each more than the debounce interval after
    the one before it, the first more than the interval after [last]. *)
Fixpoint spaced (last : Q) (fs : list Q) : Prop :=
  match fs with
  | [] => True
  | f :: fs' => DEBOUNCE_SECONDS < f - last /\ spaced f fs'
  end.

(** Membership of a clock reading in the closed window [[w, w + d]]. *)
Definition in_window (w d t : Q) : bool := Qle_bool w t && Qle_bool t (w + d).

(** The keyword argument [main] hands to [pvporcupine.create], and what
    the engine answers to that call. *)
Definition detector_keyword (w : world) (a : args) : keyword_choice :=
  snd (fst (select_keyword (path_exists w) (CUSTOM_KEYWORD_PATH (os_environ w)) a)).

Definition create_outcome (w : world) (a : args) : create_result :=
  pvporcupine_create w (access_key a) (detector_keyword w a) (sensitivity a).

(** ** Sample runs *)

(** A command line with no option on it. *)
Definition no_options : cli := {|
  opt_list_devices := false;
  opt_device := None;
  opt_sensitivity := None;
  opt_access_key := None;
  opt_keyword_path := None;
  opt_use_jarvis := false
|}.

(** A machine on which everything works: a credential in the
    environment, one model file on disk, an engine that rejects only the
    empty credential, a recorder that opens. *)
Definition sample_world (custom : option string) (evs : list event)
    (stop_raises delete_raises : bool) : world := {|
  os_environ := {| PICOVOICE_ACCESS_KEY := Some "test-key"%string;
                   JUBILEE_KEYWORD_PATH := custom |};
  path_exists := fun p => (p =? "hey_jubilee.ppn")%string;
  get_available_devices := ["Microphone"%string];
  pvporcupine_create := fun key _ _ =>
    if (key =? "")%string then CreateFailed PorcupineInvalidArgumentError
    else Created 512;
  PvRecorder_init := fun _ _ => true;
  recorder_start_raises := false;
  frames := evs;
  recorder_stop_raises := stop_raises;
  porcupine_delete_raises := delete_raises
|}.

(** ** Further trace readers *)

(** Events after which the loop goes on to its next pass. *)
Definition is_detection (e : event) : bool :=
  match e with
  | Detection _ _ => true
  | _ => false
  end.

Definition is_stop (e : effect) : bool :=
  match e with
  | RecorderStop => true
  | _ => false
  end.

Definition is_delete (e : effect) : bool :=
  match e with
  | PorcupineDelete => true
  | _ => false
  end.

Definition is_create (e : effect) : bool :=
  match e with
  | PorcupineCreate _ _ _ => true
  | _ => false
  end.

Definition is_start (e : effect) : bool :=
  match e with
  | RecorderStart => true
  | _ => false
  end.

(** Calls made from inside the body of [while True]. *)
Definition loop_body_effect (e : effect) : bool :=
  match e with
  | RecorderRead | PorcupineProcess | OnWakeWordDetected _ => true
  | _ => false
  end.

(** The lines a trace prints, in order. *)
Fixpoint prints (tr : list effect) : list message :=
  match tr with
  | [] => []
  | Print m :: tr' => m :: prints tr'
  | _ :: tr' => prints tr'
  end.

(** How many calls of a kind a trace holds. *)
Definition calls (kind : effect -> bool) (tr : list effect) : nat :=
  List.length (filter kind tr).

(** The line [main] prints while choosing the keyword, and the name it
    shows in the banner. *)
Definition selection_line (w : world) (a : args) : message :=
  fst (fst (select_keyword (path_exists w) (CUSTOM_KEYWORD_PATH (os_environ w)) a)).

Definition wake_word_name (w : world) (a : args) : string :=
  snd (select_keyword (path_exists w) (CUSTOM_KEYWORD_PATH (os_environ w)) a).

(** The four lines the keyword selection can print. *)
Definition is_selection_line (m : message) : bool :=
  match m with
  | MsgLoadingCustom _ | MsgUsingJarvis | MsgLoadingCustomFromEnv _
  | MsgNoCustomKeyword => true
  | _ => false
  end.

(** What [main] has done by the time it calls [listen]. *)
Definition setup_calls (a : args) (line : message) (kw : keyword_choice)
    (frame_length : Z) (wake_word_name : string) : list effect :=
  [Print line; PorcupineCreate (access_key a) kw (sensitivity a);
   RecorderCreate (device a) frame_length; Print (MsgBanner wake_word_name)].

(** ** Basic facts about the loop *)

Lemma Qgtb_true (a b : Q) : Qgtb a b = true <-> b < a.
Proof.
  unfold Qgtb. rewrite negb_true_iff.
  split; intro H.
  - apply Qnot_le_lt. intro Hle. apply Qle_bool_iff in Hle. congruence.
  - destruct (Qle_bool a b) eqn:E; [|reflexivity].
    apply Qle_bool_iff in E. lra.
Qed.

Lemma Qgtb_false (a b : Q) : Qgtb a b = false <-> a <= b.
Proof.
  unfold Qgtb. rewrite negb_false_iff. apply Qle_bool_iff.
Qed.

Lemma fires_app (tr1 tr2 : list effect) :
  fires (tr1 ++ tr2) = fires tr1 ++ fires tr2.
Proof.
  induction tr1 as [|e tr1 IH]; [reflexivity|].
  destruct e; simpl; rewrite ?IH; reflexivity.
Qed.

Lemma loop_detection (last : Q) (k : Z) (t : Q) (evs : list event) :
  loop_trace last (Detection k t :: evs) =
    RecorderRead :: PorcupineProcess ::
      snd (on_detection last k t) ++ loop_trace (fst (on_detection last k t)) evs
  /\ loop_last last (Detection k t :: evs) =
       loop_last (fst (on_detection last k t)) evs.
Proof.
  unfold loop_trace, loop_last. simpl.
  destruct (on_detection last k t) as [last' acts]. simpl.
  destruct (loop last' evs) as [[tr final] ex]. simpl. split; reflexivity.
Qed.

Lemma fires_loop_detection (last : Q) (k : Z) (t : Q) (evs : list event) :
  fires (loop_trace last (Detection k t :: evs)) =
    fires (snd (on_detection last k t))
      ++ fires (loop_trace (fst (on_detection last k t)) evs).
Proof.
  destruct (loop_detection last k t evs) as [-> _].
  simpl. apply fires_app.
Qed.

Lemma on_detection_no_match (last : Q) (k : Z) (t : Q) :
  (k < 0)%Z -> on_detection last k t = (last, []).
Proof.
  intro Hk. unfold on_detection.
  destruct (Z.leb_spec 0 k); [lia | reflexivity].
Qed.

Lemma on_detection_fire (last : Q) (k : Z) (t : Q) :
  (0 <= k)%Z -> DEBOUNCE_SECONDS < t - last ->
  on_detection last k t = (t, [OnWakeWordDetected t]).
Proof.
  intros Hk Hgt. unfold on_detection.
  destruct (Z.leb_spec 0 k); [|lia].
  apply Qgtb_true in Hgt. rewrite Hgt. reflexivity.
Qed.

Lemma on_detection_suppress (last : Q) (k : Z) (t : Q) :
  t - last <= DEBOUNCE_SECONDS -> on_detection last k t = (last, []).
Proof.
  intro Hle. unfold on_detection.
  apply Qgtb_false in Hle. rewrite Hle.
  destruct (0 <=? k)%Z; reflexivity.
Qed.

(** [on_detection] either fires, and then the elapsed time was above the
    interval, or leaves everything as it was. *)
Lemma on_detection_cases (last : Q) (k : Z) (t : Q) :
  (on_detection last k t = (t, [OnWakeWordDetected t])
   /\ DEBOUNCE_SECONDS < t - last)
  \/ on_detection last k t = (last, []).
Proof.
  unfold on_detection.
  destruct (0 <=? k)%Z; [|right; reflexivity].
  destruct (Qgtb (t - last) DEBOUNCE_SECONDS) eqn:E.
  - left. split; [reflexivity | apply Qgtb_true; exact E].
  - right. reflexivity.
Qed.

Lemma loop_spaced (evs : list event) :
  forall last, spaced last (fires (loop_trace last evs)).
Proof.
  induction evs as [|e evs IH]; intro last; [exact I|].
  destruct e as [k t| |]; [|exact I|exact I].
  rewrite fires_loop_detection.
  destruct (on_detection_cases last k t) as [[-> Hgt] | ->]; simpl.
  - split; [exact Hgt | apply IH].
  - apply IH.
Qed.

Lemma spaced_nth (fs : list Q) :
  forall last j tj,
    spaced last fs -> nth_error fs j = Some tj -> DEBOUNCE_SECONDS < tj - last.
Proof.
  unfold DEBOUNCE_SECONDS.
  induction fs as [|f fs IH]; intros last j tj Hsp Hj.
  - destruct j; discriminate.
  - destruct Hsp as [Hf Hsp]. destruct j as [|j]; simpl in Hj.
    + injection Hj as <-. exact Hf.
    + specialize (IH f j tj Hsp Hj). unfold DEBOUNCE_SECONDS in Hf. lra.
Qed.

Lemma spaced_pair (fs : list Q) :
  forall last i j ti tj,
    spaced last fs -> (i < j)%nat ->
    nth_error fs i = Some ti -> nth_error fs j = Some tj ->
    DEBOUNCE_SECONDS < tj - ti.
Proof.
  induction fs as [|f fs IH]; intros last i j ti tj Hsp Hij Hi Hj.
  - destruct i; discriminate.
  - destruct Hsp as [_ Hsp].
    destruct j as [|j]; [lia|]. simpl in Hj.
    destruct i as [|i]; simpl in Hi.
    + injection Hi as <-. exact (spaced_nth fs f j tj Hsp Hj).
    + apply (IH f i j ti tj Hsp); [lia | exact Hi | exact Hj].
Qed.

(** In a [spaced] list no closed window of the debounce length holds two
    firing times. *)
Lemma spaced_window (w : Q) (fs : list Q) :
  forall last,
    spaced last fs ->
    (List.length (filter (in_window w DEBOUNCE_SECONDS) fs) <= 1)%nat.
Proof.
  induction fs as [|f fs IH]; intros last Hsp; [simpl; lia|].
  destruct Hsp as [_ Hsp]. simpl.
  destruct (in_window w DEBOUNCE_SECONDS f) eqn:Ew; [|exact (IH f Hsp)].
  apply andb_prop in Ew as [Hw1 Hw2]. apply Qle_bool_iff in Hw1, Hw2.
  destruct (filter (in_window w DEBOUNCE_SECONDS) fs) as [|g gs] eqn:E;
    [simpl; lia|].
  assert (Hg : In g (filter (in_window w DEBOUNCE_SECONDS) fs))
    by (rewrite E; left; reflexivity).
  apply filter_In in Hg as [Hgin Hgw].
  apply andb_prop in Hgw as [_ Hg2]. apply Qle_bool_iff in Hg2.
  apply In_nth_error in Hgin as [n Hn].
  pose proof (spaced_nth fs f n g Hsp Hn). lra.
Qed.

Lemma fires_In (tr : list effect) (t : Q) :
  In (OnWakeWordDetected t) tr <-> In t (fires tr).
Proof.
  induction tr as [|e tr IH]; [reflexivity|].
  destruct e; simpl; rewrite <- IH;
    try (split; [intros [H | H]; [discriminate | exact H] | intro H; right; exact H]).
  split; (intros [H | H]; [left; congruence | right; exact H]).
Qed.

Lemma loop_no_match_prefix (pre evs : list event) :
  forall last,
    forallb is_no_match pre = true ->
    fires (loop_trace last (pre ++ evs)) = fires (loop_trace last evs)
    /\ loop_last last (pre ++ evs) = loop_last last evs.
Proof.
  induction pre as [|e pre IH]; intros last Hall; [split; reflexivity|].
  simpl in Hall. apply andb_prop in Hall as [He Hall].
  destruct e as [k t| |]; try discriminate.
  simpl in He. apply Z.ltb_lt in He.
  simpl app. rewrite fires_loop_detection.
  destruct (loop_detection last k t (pre ++ evs)) as [_ ->].
  rewrite (on_detection_no_match last k t He). simpl.
  apply IH. exact Hall.
Qed.

(** ** The debounce policy *)

(** C1: over any sequence of loop events, two invocations of the action
    are always more than [DEBOUNCE_SECONDS] of observed clock time
    apart, and so no closed window of that length holds two of them,
    however many matches the detector reports in between. *)
Theorem action_fires_at_most_once_per_debounce_interval (evs : list event) :
  (forall i j ti tj,
      (i < j)%nat ->
      nth_error (fires (loop_trace initial_trigger_time evs)) i = Some ti ->
      nth_error (fires (loop_trace initial_trigger_time evs)) j = Some tj ->
      DEBOUNCE_SECONDS < tj - ti)
  /\ (forall w,
         (List.length (filter (in_window w DEBOUNCE_SECONDS)
                         (fires (loop_trace initial_trigger_time evs))) <= 1)%nat).
Proof.
  pose proof (loop_spaced evs initial_trigger_time) as Hsp.
  split.
  - intros i j ti tj. apply (spaced_pair _ _ i j ti tj Hsp).
  - intro w. exact (spaced_window w _ _ Hsp).
Qed.

Lemma action_fires_at_most_once_per_debounce_interval_witness :
  DEBOUNCE_SECONDS < 13 - 10.
Proof.
  apply (proj1 (action_fires_at_most_once_per_debounce_interval
                  [Detection 0 10; Detection 0 11; Detection (-1) 12;
                   Detection 0 11.5; Detection 0 13])
           0%nat 1%nat 10 13).
  - lia.
  - reflexivity.
  - reflexivity.
Defined.

(** C2: on a match the action is invoked exactly once, and
    [last_trigger_time] moved to the current reading, when the elapsed
    time is strictly above the debounce interval; at or below it (so also
    at exact equality) nothing happens; and two matches in a row that
    each see an elapsed time above the interval both fire. *)
Theorem match_fires_iff_elapsed_exceeds_debounce
    (last : Q) (k : Z) (now : Q) :
  (0 <= k)%Z ->
  (DEBOUNCE_SECONDS < now - last ->
     on_detection last k now = (now, [OnWakeWordDetected now]))
  /\ (now - last <= DEBOUNCE_SECONDS -> on_detection last k now = (last, []))
  /\ (now - last == DEBOUNCE_SECONDS -> on_detection last k now = (last, []))
  /\ (forall k' now' rest,
         (0 <= k')%Z ->
         DEBOUNCE_SECONDS < now - last ->
         DEBOUNCE_SECONDS < now' - now ->
         fires (loop_trace last (Detection k now :: Detection k' now' :: rest))
         = now :: now' :: fires (loop_trace now' rest)).
Proof.
  intro Hk. repeat split.
  - apply on_detection_fire. exact Hk.
  - apply on_detection_suppress.
  - intro Heq. apply on_detection_suppress. rewrite Heq. apply Qle_refl.
  - intros k' now' rest Hk' H1 H2.
    rewrite fires_loop_detection, (on_detection_fire last k now Hk H1). simpl.
    rewrite fires_loop_detection, (on_detection_fire now k' now' Hk' H2).
    reflexivity.
Qed.

Lemma match_fires_iff_elapsed_exceeds_debounce_witness :
  on_detection 10 0 12.5 = (12.5, [OnWakeWordDetected 12.5])
  /\ on_detection 10 0 11 = (10, [])
  /\ on_detection 10 0 12 = (10, [])
  /\ fires (loop_trace 10 [Detection 0 12.5; Detection 0 15]) = [12.5; 15].
Proof.
  assert (H0 : (0 <= 0)%Z) by lia.
  destruct (match_fires_iff_elapsed_exceeds_debounce 10 0 12.5 H0)
    as (Hfire & _ & _ & Hboth).
  destruct (match_fires_iff_elapsed_exceeds_debounce 10 0 11 H0)
    as (_ & Hbelow & _).
  destruct (match_fires_iff_elapsed_exceeds_debounce 10 0 12 H0)
    as (_ & _ & Hequal & _).
  split; [|split; [|split]].
  - apply Hfire. reflexivity.
  - apply Hbelow. discriminate.
  - apply Hequal. reflexivity.
  - apply (Hboth 0%Z 15 []); [lia | reflexivity | reflexivity].
Defined.

(** C3: a match suppressed by the debounce test changes nothing:
    [last_trigger_time] is kept and no call is made.  So with the
    debounce of 2.0 s and three matches of which the first fires, the
    second comes 1.0 s and the third 2.1 s after the first, the action
    fires at the first and at the third only, and [last_trigger_time] is
    still the first reading when the third match is tested: the
    suppressed match has neither reset nor extended the window.  The
    same holds for any second offset within the interval and any third
    offset beyond it. *)
Theorem suppressed_match_has_no_effect :
  (forall last k now,
      (0 <= k)%Z -> now - last <= DEBOUNCE_SECONDS ->
      on_detection last k now = (last, []))
  /\ DEBOUNCE_SECONDS == 2.0
  /\ (forall t0 t1 t2 k0 k1 k2,
         (0 <= k0)%Z -> (0 <= k1)%Z -> (0 <= k2)%Z ->
         DEBOUNCE_SECONDS < t0 - initial_trigger_time ->
         t1 - t0 == 1.0 ->
         t2 - t0 == 2.1 ->
         fires (loop_trace initial_trigger_time
                  [Detection k0 t0; Detection k1 t1; Detection k2 t2])
         = [t0; t2]
         /\ loop_last initial_trigger_time [Detection k0 t0; Detection k1 t1]
            = t0)
  /\ (forall t0 t1 t2 k0 k1 k2,
         (0 <= k0)%Z -> (0 <= k1)%Z -> (0 <= k2)%Z ->
         DEBOUNCE_SECONDS < t0 - initial_trigger_time ->
         t1 - t0 <= DEBOUNCE_SECONDS ->
         DEBOUNCE_SECONDS < t2 - t0 ->
         fires (loop_trace initial_trigger_time
                  [Detection k0 t0; Detection k1 t1; Detection k2 t2])
         = [t0; t2]
         /\ loop_last initial_trigger_time [Detection k0 t0; Detection k1 t1]
            = t0).
Proof.
  assert (Hgeneral : forall t0 t1 t2 k0 k1 k2,
             (0 <= k0)%Z -> (0 <= k1)%Z -> (0 <= k2)%Z ->
             DEBOUNCE_SECONDS < t0 - initial_trigger_time ->
             t1 - t0 <= DEBOUNCE_SECONDS ->
             DEBOUNCE_SECONDS < t2 - t0 ->
             fires (loop_trace initial_trigger_time
                      [Detection k0 t0; Detection k1 t1; Detection k2 t2])
             = [t0; t2]
             /\ loop_last initial_trigger_time
                  [Detection k0 t0; Detection k1 t1] = t0).
  { intros t0 t1 t2 k0 k1 k2 H0 H1 H2 Hfirst Hsecond Hthird. split.
    - rewrite fires_loop_detection, (on_detection_fire _ k0 t0 H0 Hfirst).
      cbn [fst snd fires app].
      rewrite fires_loop_detection, (on_detection_suppress t0 k1 t1 Hsecond).
      cbn [fst snd fires app].
      rewrite fires_loop_detection, (on_detection_fire t0 k2 t2 H2 Hthird).
      reflexivity.
    - destruct (loop_detection initial_trigger_time k0 t0 [Detection k1 t1])
        as [_ ->].
      rewrite (on_detection_fire _ k0 t0 H0 Hfirst). cbn [fst].
      destruct (loop_detection t0 k1 t1 []) as [_ ->].
      rewrite (on_detection_suppress t0 k1 t1 Hsecond). reflexivity. }
  split; [|split; [|split]].
  - intros last k now _. apply on_detection_suppress.
  - reflexivity.
  - intros t0 t1 t2 k0 k1 k2 H0 H1 H2 Hfirst Hsecond Hthird.
    apply (Hgeneral t0 t1 t2 k0 k1 k2 H0 H1 H2 Hfirst).
    + rewrite Hsecond. unfold DEBOUNCE_SECONDS. lra.
    + rewrite Hthird. unfold DEBOUNCE_SECONDS. lra.
  - exact Hgeneral.
Qed.

Lemma suppressed_match_has_no_effect_witness :
  on_detection 100 0 101 = (100, [])
  /\ fires (loop_trace initial_trigger_time
              [Detection 0 100; Detection 0 101; Detection 0 102.1])
     = [100; 102.1]
  /\ loop_last initial_trigger_time [Detection 0 100; Detection 0 101] = 100
  /\ fires (loop_trace initial_trigger_time
              [Detection 0 100; Detection 0 101.9; Detection 0 102.5])
     = [100; 102.5].
Proof.
  destruct suppressed_match_has_no_effect
    as (Hkeep & _ & Hscenario & Hgeneral).
  destruct (Hscenario 100 101 102.1 0%Z 0%Z 0%Z) as [Hfires Hlast];
    [lia | lia | lia | reflexivity | reflexivity | reflexivity |].
  destruct (Hgeneral 100 101.9 102.5 0%Z 0%Z 0%Z) as [Hfires' _];
    [lia | lia | lia | reflexivity | discriminate | reflexivity |].
  split; [apply Hkeep; [lia | discriminate] | ].
  split; [exact Hfires | split; [exact Hlast | exact Hfires']].
Defined.

(** C4: the loop starts from [last_trigger_time = 0], and whatever
    no-match events come first and whatever follows, the first match
    fires as soon as the clock reading at that match is above the
    debounce interval. *)
Theorem first_match_fires (pre : list event) (k : Z) (now : Q)
    (rest : list event) :
  forallb is_no_match pre = true ->
  (0 <= k)%Z ->
  DEBOUNCE_SECONDS < now ->
  initial_trigger_time = 0
  /\ fires (loop_trace initial_trigger_time (pre ++ Detection k now :: rest))
     = now :: fires (loop_trace now rest).
Proof.
  intros Hpre Hk Hnow. split; [reflexivity|].
  destruct (loop_no_match_prefix pre (Detection k now :: rest)
              initial_trigger_time Hpre) as [-> _].
  rewrite fires_loop_detection, (on_detection_fire _ k now Hk)
    by (unfold initial_trigger_time, DEBOUNCE_SECONDS in *; lra).
  reflexivity.
Qed.

Lemma first_match_fires_witness :
  initial_trigger_time = 0
  /\ fires (loop_trace initial_trigger_time
              ([Detection (-1) 1; Detection (-1) 1.5]
                 ++ Detection 0 2.5 :: [Detection 0 3]))
     = 2.5 :: fires (loop_trace 2.5 [Detection 0 3]).
Proof.
  apply (first_match_fires [Detection (-1) 1; Detection (-1) 1.5] 0 2.5
           [Detection 0 3]).
  - reflexivity.
  - lia.
  - reflexivity.
Defined.

(** C5: an event with a negative keyword index makes no call and keeps
    [last_trigger_time]; over any run of such events, however long, the
    action is never invoked and [last_trigger_time] is what it was. *)
Theorem no_match_has_no_effect :
  (forall last k now, (k < 0)%Z -> on_detection last k now = (last, []))
  /\ (forall last evs,
         forallb is_no_match evs = true ->
         fires (loop_trace last evs) = []
         /\ (forall t, ~ In (OnWakeWordDetected t) (loop_trace last evs))
         /\ loop_last last evs = last).
Proof.
  split; [exact on_detection_no_match|].
  intros last evs Hall.
  destruct (loop_no_match_prefix evs [] last Hall) as [Hf Hl].
  rewrite app_nil_r in Hf, Hl.
  assert (Hnone : fires (loop_trace last evs) = []) by (rewrite Hf; reflexivity).
  split; [exact Hnone | split].
  - intros t Hin. apply fires_In in Hin. rewrite Hnone in Hin. exact Hin.
  - rewrite Hl. reflexivity.
Qed.

Lemma no_match_has_no_effect_witness :
  on_detection 7 (-1) 100 = (7, [])
  /\ fires (loop_trace 7 [Detection (-1) 100; Detection (-1) 200]) = []
  /\ loop_last 7 [Detection (-1) 100; Detection (-1) 200] = 7.
Proof.
  destruct no_match_has_no_effect as [Hone Hmany].
  split.
  - apply Hone. lia.
  - destruct (Hmany 7 [Detection (-1) 100; Detection (-1) 200] eq_refl)
      as (Hf & _ & Hl).
    split; [exact Hf | exact Hl].
Defined.

(** ** [main]: which calls are made *)

Lemma cleanup_stops_recorder (w : world) :
  In RecorderStop (fst (cleanup w))
  /\ (recorder_stop_raises w = false -> In PorcupineDelete (fst (cleanup w)))
  /\ (recorder_stop_raises w = true -> ~ In PorcupineDelete (fst (cleanup w)))
  /\ (snd (cleanup w) = true <->
      recorder_stop_raises w = false /\ porcupine_delete_raises w = false).
Proof.
  unfold cleanup.
  destruct (recorder_stop_raises w), (porcupine_delete_raises w); simpl;
    intuition discriminate.
Qed.

Lemma main_starts_detector (w : world) (c : cli) :
  opt_list_devices c = false ->
  access_key (parse_args (os_environ w) c) <> PLACEHOLDER_KEY ->
  main w c = start_detector w (parse_args (os_environ w) c).
Proof.
  intros Hlist Hkey. unfold main. simpl list_devices. rewrite Hlist.
  destruct (String.eqb_spec (access_key (parse_args (os_environ w) c))
              PLACEHOLDER_KEY) as [E | _]; [contradiction | reflexivity].
Qed.

Lemma start_detector_create_failed (w : world) (a : args) (e : create_error) :
  create_outcome w a = CreateFailed e ->
  exists line,
    start_detector w a =
      ([Print line;
        PorcupineCreate (access_key a) (detector_keyword w a) (sensitivity a);
        Print (create_error_message e)], Returned).
Proof.
  unfold create_outcome, detector_keyword, start_detector.
  destruct (select_keyword _ _ a) as [[line kw] name]. simpl.
  intros ->. exists line. reflexivity.
Qed.

Lemma start_detector_recorder_failed (w : world) (a : args) (fl : Z) :
  create_outcome w a = Created fl ->
  PvRecorder_init w (device a) fl = false ->
  exists line,
    start_detector w a =
      ([Print line;
        PorcupineCreate (access_key a) (detector_keyword w a) (sensitivity a);
        RecorderCreate (device a) fl;
        Print MsgRecorderError;
        PorcupineDelete],
       if porcupine_delete_raises w then Raised else Returned).
Proof.
  unfold create_outcome, detector_keyword, start_detector.
  destruct (select_keyword _ _ a) as [[line kw] name]. simpl.
  intros -> ->. exists line. reflexivity.
Qed.

(** ** Early exits and set-up failures *)




(** C8: past the two early exits, an exception out of
    [pvporcupine.create] makes [main] print the message of its class and
    return having created nothing else; an exception out of the
    [PvRecorder] constructor makes [main] print the recorder message and
    call [porcupine.delete()] on the detector it holds.  In both cases
    no call of the loop is made, and [main] returns. *)
Theorem initialization_errors_are_fatal (w : world) (c : cli) :
  opt_list_devices c = false ->
  access_key (parse_args (os_environ w) c) <> PLACEHOLDER_KEY ->
  (forall e,
      create_outcome w (parse_args (os_environ w) c) = CreateFailed e ->
      snd (main w c) = Returned
      /\ In (Print (create_error_message e)) (fst (main w c))
      /\ is_error_message (create_error_message e) = true
      /\ existsb loop_effect (fst (main w c)) = false
      /\ (forall d fl, ~ In (RecorderCreate d fl) (fst (main w c))))
  /\ (forall fl,
         create_outcome w (parse_args (os_environ w) c) = Created fl ->
         PvRecorder_init w (device (parse_args (os_environ w) c)) fl = false ->
         In (Print MsgRecorderError) (fst (main w c))
         /\ In PorcupineDelete (fst (main w c))
         /\ existsb loop_effect (fst (main w c)) = false
         /\ (porcupine_delete_raises w = false -> snd (main w c) = Returned)).
Proof.
  intros Hlist Hkey. rewrite (main_starts_detector w c Hlist Hkey).
  split.
  - intros e He.
    destruct (start_detector_create_failed w _ e He) as [line ->].
    simpl. repeat split.
    + tauto.
    + destruct e; reflexivity.
    + intros d fl. intuition discriminate.
  - intros fl Hfl Hrec.
    destruct (start_detector_recorder_failed w _ fl Hfl Hrec) as [line ->].
    simpl. repeat split.
    + tauto.
    + tauto.
    + intros ->. reflexivity.
Qed.

Lemma initialization_errors_are_fatal_witness :
  snd (main (sample_world None [Detection 0 100] false false)
         {| opt_list_devices := false; opt_device := None;
            opt_sensitivity := None; opt_access_key := Some ""%string;
            opt_keyword_path := None; opt_use_jarvis := false |}) = Returned
  /\ existsb loop_effect
       (fst (main (sample_world None [Detection 0 100] false false)
               {| opt_list_devices := false; opt_device := None;
                  opt_sensitivity := None; opt_access_key := Some ""%string;
                  opt_keyword_path := None; opt_use_jarvis := false |})) = false.
Proof.
  destruct (initialization_errors_are_fatal
              (sample_world None [Detection 0 100] false false)
              {| opt_list_devices := false; opt_device := None;
                 opt_sensitivity := None; opt_access_key := Some ""%string;
                 opt_keyword_path := None; opt_use_jarvis := false |})
    as [Hcreate _].
  - reflexivity.
  - discriminate.
  - destruct (Hcreate PorcupineInvalidArgumentError eq_refl)
      as (Hret & _ & _ & Hloop & _).
    split; [exact Hret | exact Hloop].
Defined.

(** C9: with [--list-devices], [main] asks the recorder library for the
    input devices, prints them and returns; it creates no detector and
    no recorder, makes no call of the loop, and never invokes the
    action. *)
Theorem list_devices_returns_before_loop (w : world) (c : cli) :
  opt_list_devices c = true ->
  main w c = (list_audio_devices w, Returned)
  /\ In GetAvailableDevices (fst (main w c))
  /\ In (Print (MsgDevices (get_available_devices w))) (fst (main w c))
  /\ existsb acquisition (fst (main w c)) = false
  /\ existsb loop_effect (fst (main w c)) = false
  /\ fires (fst (main w c)) = [].
Proof.
  intro Hlist.
  assert (Hmain : main w c = (list_audio_devices w, Returned)).
  { unfold main. simpl list_devices. rewrite Hlist. reflexivity. }
  rewrite Hmain. unfold list_audio_devices. simpl. tauto.
Qed.

Lemma list_devices_returns_before_loop_witness :
  main (sample_world None [Detection 0 100] false false)
    {| opt_list_devices := true; opt_device := None;
       opt_sensitivity := None; opt_access_key := None;
       opt_keyword_path := None; opt_use_jarvis := false |}
  = ([Print MsgDevicesHeader; GetAvailableDevices;
      Print (MsgDevices ["Microphone"%string])], Returned).
Proof.
  apply (list_devices_returns_before_loop
           (sample_world None [Detection 0 100] false false)
           {| opt_list_devices := true; opt_device := None;
              opt_sensitivity := None; opt_access_key := None;
              opt_keyword_path := None; opt_use_jarvis := false |}).
  reflexivity.
Defined.

(** ** Keyword selection *)




(** ** More on the loop *)

Lemma loop_detection_exit (last : Q) (k : Z) (t : Q) (evs : list event) :
  snd (loop last (Detection k t :: evs))
  = snd (loop (fst (on_detection last k t)) evs).
Proof.
  simpl. destruct (on_detection last k t) as [last' acts]. simpl.
  destruct (loop last' evs) as [[tr final] ex]. reflexivity.
Qed.

Lemma last_cons_default (fs : list Q) (f d : Q) :
  List.last (f :: fs) d = List.last fs f.
Proof.
  revert f d. induction fs as [|g fs IH]; intros f d; [reflexivity|].
  change (List.last (f :: g :: fs) d) with (List.last (g :: fs) d).
  rewrite (IH g d). symmetry. apply IH.
Qed.

Lemma loop_app (evs1 evs2 : list event) (last : Q) :
  forallb is_detection evs1 = true ->
  loop_trace last (evs1 ++ evs2)
  = loop_trace last evs1 ++ loop_trace (loop_last last evs1) evs2
  /\ loop_last last (evs1 ++ evs2) = loop_last (loop_last last evs1) evs2
  /\ snd (loop last (evs1 ++ evs2)) = snd (loop (loop_last last evs1) evs2).
Proof.
  revert last. induction evs1 as [|e evs1 IH]; intros last Hall.
  - repeat split.
  - simpl in Hall. apply andb_prop in Hall as [He Hall].
    destruct e as [k t| |]; try discriminate.
    simpl app.
    destruct (loop_detection last k t (evs1 ++ evs2)) as [-> ->].
    destruct (loop_detection last k t evs1) as [-> ->].
    rewrite !loop_detection_exit.
    destruct (IH (fst (on_detection last k t)) Hall) as (-> & -> & ->).
    simpl. rewrite <- app_assoc. repeat split.
Qed.

(** X1: a run over [evs1 ++ evs2], none of [evs1] raising, is the run
    over [evs1] followed by the run over [evs2] started from the
    [last_trigger_time] the first run left: the only thing one pass
    hands to the next is that one value. *)
Theorem loop_over_appended_events (evs1 evs2 : list event) (last : Q) :
  forallb is_detection evs1 = true ->
  loop_trace last (evs1 ++ evs2)
  = loop_trace last evs1 ++ loop_trace (loop_last last evs1) evs2
  /\ loop_last last (evs1 ++ evs2) = loop_last (loop_last last evs1) evs2
  /\ snd (loop last (evs1 ++ evs2)) = snd (loop (loop_last last evs1) evs2).
Proof.
  exact (loop_app evs1 evs2 last).
Qed.

Lemma loop_over_appended_events_witness :
  loop_trace 0 ([Detection 0 5; Detection (-1) 6] ++ [Detection 0 6.5; Detection 0 8])
  = loop_trace 0 [Detection 0 5; Detection (-1) 6]
      ++ loop_trace (loop_last 0 [Detection 0 5; Detection (-1) 6])
           [Detection 0 6.5; Detection 0 8].
Proof.
  apply (loop_over_appended_events [Detection 0 5; Detection (-1) 6]
           [Detection 0 6.5; Detection 0 8] 0).
  reflexivity.
Defined.

(** X2: the loop ends at the first exception out of [recorder.read()]:
    the calls made are those of the passes before it and the one read
    that raised, [last_trigger_time] is what those passes left, and no
    later event is looked at. *)
Theorem loop_ends_at_first_exception (pre rest : list event) (last : Q) :
  forallb is_detection pre = true ->
  loop last (pre ++ KeyboardInterrupt :: rest)
  = (loop_trace last pre ++ [RecorderRead], loop_last last pre, Interrupted)
  /\ loop last (pre ++ Fault :: rest)
     = (loop_trace last pre ++ [RecorderRead], loop_last last pre, Crashed).
Proof.
  intro Hall.
  destruct (loop_app pre (KeyboardInterrupt :: rest) last Hall)
    as (Ht & Hl & Hx).
  destruct (loop_app pre (Fault :: rest) last Hall)
    as (Ht' & Hl' & Hx').
  unfold loop_trace, loop_last in *.
  split.
  - destruct (loop last (pre ++ KeyboardInterrupt :: rest)) as [[tr l] x].
    simpl in Ht, Hl, Hx. subst. reflexivity.
  - destruct (loop last (pre ++ Fault :: rest)) as [[tr l] x].
    simpl in Ht', Hl', Hx'. subst. reflexivity.
Qed.

Lemma loop_ends_at_first_exception_witness :
  loop 0 ([Detection 0 5] ++ KeyboardInterrupt :: [Detection 0 9])
  = (loop_trace 0 [Detection 0 5] ++ [RecorderRead],
     loop_last 0 [Detection 0 5], Interrupted).
Proof.
  apply (loop_ends_at_first_exception [Detection 0 5] [Detection 0 9] 0).
  reflexivity.
Defined.

Lemma loop_last_fires (evs : list event) (last : Q) :
  loop_last last evs = List.last (fires (loop_trace last evs)) last.
Proof.
  revert last. induction evs as [|e evs IH]; intro last; [reflexivity|].
  destruct e as [k t| |]; [|reflexivity|reflexivity].
  rewrite fires_loop_detection.
  destruct (loop_detection last k t evs) as [_ ->].
  destruct (on_detection_cases last k t) as [[-> _] | ->]; simpl fst; simpl snd.
  - simpl fires. simpl app. rewrite last_cons_default. apply IH.
  - apply IH.
Qed.

(** X3: [last_trigger_time] is written only when the action fires: after
    any run it is the clock reading of the latest firing, or the value
    the run started from when nothing fired. *)
Theorem last_trigger_time_is_latest_firing (evs : list event) (last : Q) :
  loop_last last evs = List.last (fires (loop_trace last evs)) last.
Proof.
  exact (loop_last_fires evs last).
Qed.

(** X4: the action is invoked only in answer to a match: every firing
    time is the clock reading of some event of the run with a
    non-negative keyword index, and there are no more firings than such
    events. *)
Theorem action_fires_only_on_matches (evs : list event) (last : Q) :
  (forall t,
      In t (fires (loop_trace last evs)) ->
      exists k, In (Detection k t) evs /\ (0 <= k)%Z)
  /\ (List.length (fires (loop_trace last evs))
      <= List.length (filter is_match evs))%nat.
Proof.
  revert last. induction evs as [|e evs IH]; intro last.
  - split; [intros t [] | simpl; lia].
  - destruct e as [k t| |]; [|split; [intros t [] | simpl; lia]..].
    rewrite fires_loop_detection. unfold on_detection. simpl filter.
    destruct (Z.leb_spec 0 k) as [Hk | Hk].
    + destruct (Qgtb (t - last) DEBOUNCE_SECONDS); simpl fst; simpl snd.
      * destruct (IH t) as [Hin Hlen]. split.
        -- intros u [<- | Hu].
           ++ exists k. split; [left; reflexivity | exact Hk].
           ++ destruct (Hin u Hu) as (k' & Hk' & Hpos).
              exists k'. split; [right; exact Hk' | exact Hpos].
        -- simpl. lia.
      * destruct (IH last) as [Hin Hlen]. split.
        -- intros u Hu. destruct (Hin u Hu) as (k' & Hk' & Hpos).
           exists k'. split; [right; exact Hk' | exact Hpos].
        -- simpl. lia.
    + destruct (IH last) as [Hin Hlen]. split.
      * intros u Hu. destruct (Hin u Hu) as (k' & Hk' & Hpos).
        exists k'. split; [right; exact Hk' | exact Hpos].
      * exact Hlen.
Qed.

Lemma action_fires_only_on_matches_witness :
  exists k,
    In (Detection k 5) [Detection (-1) 4; Detection 3 5; Detection 0 6]
    /\ (0 <= k)%Z.
Proof.
  apply (proj1 (action_fires_only_on_matches
                  [Detection (-1) 4; Detection 3 5; Detection 0 6] 0) 5).
  left. reflexivity.
Defined.

Lemma spaced_nth_scaled (fs : list Q) :
  forall last j tj,
    spaced last fs -> nth_error fs j = Some tj ->
    inject_Z (Z.of_nat (S j)) * DEBOUNCE_SECONDS < tj - last.
Proof.
  induction fs as [|f fs IH]; intros last j tj Hsp Hj.
  - destruct j; discriminate.
  - destruct Hsp as [Hf Hsp]. destruct j as [|j]; simpl in Hj.
    + injection Hj as <-. change (inject_Z (Z.of_nat 1)) with 1. lra.
    + specialize (IH f j tj Hsp Hj).
      rewrite (Nat2Z.inj_succ (S j)), <- Z.add_1_r, inject_Z_plus.
      change (inject_Z 1) with 1. unfold DEBOUNCE_SECONDS in *. lra.
Qed.

(** X5: firings are rate-limited over any span: the [j]-th firing comes
    more than [j - i] debounce intervals after the [i]-th, so [n + 1]
    firings never fit in [n] intervals of clock time. *)
Theorem firings_span_one_interval_each (evs : list event) (last : Q)
    (i j : nat) (ti tj : Q) :
  (i < j)%nat ->
  nth_error (fires (loop_trace last evs)) i = Some ti ->
  nth_error (fires (loop_trace last evs)) j = Some tj ->
  inject_Z (Z.of_nat (j - i)) * DEBOUNCE_SECONDS < tj - ti.
Proof.
  pose proof (loop_spaced evs last) as Hsp.
  revert Hsp. generalize (fires (loop_trace last evs)) as fs.
  intro fs. revert last i j.
  induction fs as [|f fs IH]; intros last i j Hsp Hij Hi Hj.
  - destruct i; discriminate.
  - destruct Hsp as [_ Hsp].
    destruct j as [|j]; [lia|]. simpl in Hj.
    destruct i as [|i]; simpl in Hi.
    + injection Hi as <-. rewrite Nat.sub_0_r.
      exact (spaced_nth_scaled fs f j tj Hsp Hj).
    + change (S j - S i)%nat with (j - i)%nat.
      apply (IH f i j Hsp); [lia | exact Hi | exact Hj].
Qed.

Lemma firings_span_one_interval_each_witness :
  inject_Z (Z.of_nat (2 - 0)) * DEBOUNCE_SECONDS < 15 - 10.
Proof.
  apply (firings_span_one_interval_each
           [Detection 0 10; Detection 0 11; Detection 0 12.5; Detection 0 15]
           0 0%nat 2%nat 10 15).
  - lia.
  - reflexivity.
  - reflexivity.
Defined.

(** X6: which matches fire, in terms of what was observed: after any
    passes that did not raise, a match fires exactly when its clock
    reading is more than the debounce interval past the latest firing
    so far (past the starting value when nothing has fired yet), and a
    firing is appended after the earlier ones. *)
Theorem match_fires_iff_beyond_latest_firing (pre : list event) (k : Z)
    (t last : Q) :
  forallb is_detection pre = true ->
  (0 <= k)%Z ->
  fires (loop_trace last (pre ++ [Detection k t]))
  = fires (loop_trace last pre)
      ++ (if Qgtb (t - List.last (fires (loop_trace last pre)) last)
               DEBOUNCE_SECONDS
          then [t] else []).
Proof.
  intros Hall Hk.
  destruct (loop_app pre [Detection k t] last Hall)
    as (-> & _ & _).
  rewrite fires_app, <- loop_last_fires.
  f_equal. rewrite fires_loop_detection. unfold on_detection.
  destruct (Z.leb_spec 0 k); [|lia].
  destruct (Qgtb (t - loop_last last pre) DEBOUNCE_SECONDS); reflexivity.
Qed.

Lemma match_fires_iff_beyond_latest_firing_witness :
  fires (loop_trace 0 ([Detection 0 10; Detection 0 11] ++ [Detection 0 12.5]))
  = fires (loop_trace 0 [Detection 0 10; Detection 0 11])
      ++ (if Qgtb (12.5 - List.last
                            (fires (loop_trace 0 [Detection 0 10; Detection 0 11]))
                            0)
               DEBOUNCE_SECONDS
          then [12.5] else []).
Proof.
  apply (match_fires_iff_beyond_latest_firing
           [Detection 0 10; Detection 0 11] 0 12.5 0).
  - reflexivity.
  - lia.
Defined.

(** ** More on [main] *)

Lemma calls_app (kind : effect -> bool) (tr1 tr2 : list effect) :
  calls kind (tr1 ++ tr2) = (calls kind tr1 + calls kind tr2)%nat.
Proof.
  unfold calls. rewrite filter_app. apply length_app.
Qed.

Lemma calls_cons (kind : effect -> bool) (e : effect) (tr : list effect) :
  calls kind (e :: tr) = ((if kind e then 1 else 0) + calls kind tr)%nat.
Proof.
  unfold calls. simpl. destruct (kind e); reflexivity.
Qed.

Lemma calls_nil (kind : effect -> bool) : calls kind [] = 0%nat.
Proof. reflexivity. Qed.

(** The loop itself makes no call but reads, detections and the action. *)
Lemma loop_trace_body_effects (evs : list event) :
  forall last, forallb loop_body_effect (loop_trace last evs) = true.
Proof.
  induction evs as [|e evs IH]; intro last; [reflexivity|].
  destruct e as [k t| |]; [|reflexivity|reflexivity].
  destruct (loop_detection last k t evs) as [-> _].
  simpl. rewrite forallb_app, IH, andb_true_r.
  destruct (on_detection_cases last k t) as [[-> _] | ->]; reflexivity.
Qed.

Lemma calls_loop_trace (kind : effect -> bool) (last : Q) (evs : list event) :
  (forall e, loop_body_effect e = true -> kind e = false) ->
  calls kind (loop_trace last evs) = 0%nat.
Proof.
  intro Hkind. pose proof (loop_trace_body_effects evs last) as Hall.
  unfold calls. induction (loop_trace last evs) as [|e tr IH]; [reflexivity|].
  simpl in Hall. apply andb_prop in Hall as [He Hall].
  simpl. rewrite (Hkind e He). exact (IH Hall).
Qed.

(** The four ways [listen] goes. *)
Lemma listen_cases (w : world) :
  (recorder_start_raises w = true /\ listen w = ([RecorderStart], Raised))
  \/ (recorder_start_raises w = false
      /\ snd (loop initial_trigger_time (frames w)) = Listening
      /\ listen w
         = (RecorderStart :: loop_trace initial_trigger_time (frames w),
            StillListening))
  \/ (recorder_start_raises w = false
      /\ snd (loop initial_trigger_time (frames w)) = Interrupted
      /\ listen w
         = (RecorderStart :: loop_trace initial_trigger_time (frames w)
              ++ Print MsgStopping :: fst (cleanup w),
            if snd (cleanup w) then Returned else Raised))
  \/ (recorder_start_raises w = false
      /\ snd (loop initial_trigger_time (frames w)) = Crashed
      /\ listen w
         = (RecorderStart :: loop_trace initial_trigger_time (frames w)
              ++ fst (cleanup w),
            Raised)).
Proof.
  unfold listen, loop_trace.
  destruct (recorder_start_raises w); [left; split; reflexivity | right].
  destruct (loop initial_trigger_time (frames w)) as [[tr final] ex].
  destruct (cleanup w) as [fin completed].
  destruct ex; simpl; [left | right; left | right; right];
    repeat split; reflexivity.
Qed.

(** The five ways [main] goes. *)
Lemma main_cases (w : world) (c : cli) :
  (opt_list_devices c = true /\ main w c = (list_audio_devices w, Returned))
  \/ (opt_list_devices c = false
      /\ access_key (parse_args (os_environ w) c) = PLACEHOLDER_KEY
      /\ main w c = ([Print MsgSetupRequired], Returned))
  \/ (opt_list_devices c = false
      /\ access_key (parse_args (os_environ w) c) <> PLACEHOLDER_KEY
      /\ exists e,
          create_outcome w (parse_args (os_environ w) c) = CreateFailed e
          /\ main w c
             = ([Print (selection_line w (parse_args (os_environ w) c));
                 PorcupineCreate (access_key (parse_args (os_environ w) c))
                   (detector_keyword w (parse_args (os_environ w) c))
                   (sensitivity (parse_args (os_environ w) c));
                 Print (create_error_message e)], Returned))
  \/ (opt_list_devices c = false
      /\ access_key (parse_args (os_environ w) c) <> PLACEHOLDER_KEY
      /\ exists fl,
          create_outcome w (parse_args (os_environ w) c) = Created fl
          /\ PvRecorder_init w (device (parse_args (os_environ w) c)) fl = false
          /\ main w c
             = ([Print (selection_line w (parse_args (os_environ w) c));
                 PorcupineCreate (access_key (parse_args (os_environ w) c))
                   (detector_keyword w (parse_args (os_environ w) c))
                   (sensitivity (parse_args (os_environ w) c));
                 RecorderCreate (device (parse_args (os_environ w) c)) fl;
                 Print MsgRecorderError; PorcupineDelete],
                if porcupine_delete_raises w then Raised else Returned))
  \/ (opt_list_devices c = false
      /\ access_key (parse_args (os_environ w) c) <> PLACEHOLDER_KEY
      /\ exists fl,
          create_outcome w (parse_args (os_environ w) c) = Created fl
          /\ PvRecorder_init w (device (parse_args (os_environ w) c)) fl = true
          /\ main w c
             = (setup_calls (parse_args (os_environ w) c)
                  (selection_line w (parse_args (os_environ w) c))
                  (detector_keyword w (parse_args (os_environ w) c)) fl
                  (wake_word_name w (parse_args (os_environ w) c))
                  ++ fst (listen w),
                snd (listen w))).
Proof.
  destruct (opt_list_devices c) eqn:Hlist.
  { left. split; [reflexivity|]. unfold main. simpl list_devices.
    rewrite Hlist. reflexivity. }
  right.
  destruct (String.eqb_spec (access_key (parse_args (os_environ w) c))
              PLACEHOLDER_KEY) as [Hkey | Hkey].
  { left. split; [reflexivity | split; [exact Hkey|]].
    unfold main. simpl list_devices.
    rewrite Hlist, Hkey, String.eqb_refl. reflexivity. }
  right. rewrite (main_starts_detector w c Hlist Hkey).
  unfold create_outcome, detector_keyword, selection_line, wake_word_name,
    start_detector, setup_calls.
  destruct (select_keyword _ _ _) as [[line kw] name]. cbn [fst snd].
  destruct (pvporcupine_create w _ kw _) as [fl | e].
  - right. destruct (PvRecorder_init w _ fl) eqn:Hinit.
    + right. split; [reflexivity | split; [exact Hkey|]].
      exists fl. destruct (listen w) as [tr out].
      repeat split; try reflexivity; exact Hinit.
    + left. split; [reflexivity | split; [exact Hkey|]].
      exists fl. repeat split; try reflexivity; exact Hinit.
  - left. split; [reflexivity | split; [exact Hkey|]].
    exists e. split; reflexivity.
Qed.

Lemma selection_line_is_selection (w : world) (a : args) :
  is_selection_line (selection_line w a) = true.
Proof.
  unfold selection_line, select_keyword.
  destruct (existing_path (path_exists w) (keyword_path a)); [reflexivity|].
  destruct (use_jarvis a); [reflexivity|].
  destruct (existing_path (path_exists w) (CUSTOM_KEYWORD_PATH (os_environ w)));
    reflexivity.
Qed.

Ltac main_run w c :=
  let Hlist := fresh "Hlist" in
  let Hkey := fresh "Hkey" in
  let Hcreate := fresh "Hcreate" in
  let Hinit := fresh "Hinit" in
  let Hmain := fresh "Hmain" in
  destruct (main_cases w c)
    as [(Hlist & Hmain)
       | [(Hlist & Hkey & Hmain)
         | [(Hlist & Hkey & ?e & Hcreate & Hmain)
           | [(Hlist & Hkey & ?fl & Hcreate & Hinit & Hmain)
             | (Hlist & Hkey & ?fl & Hcreate & Hinit & Hmain)]]]];
  rewrite Hmain in *.

Ltac listen_run w :=
  let Hstart := fresh "Hstart" in
  let Hexit := fresh "Hexit" in
  let Hlisten := fresh "Hlisten" in
  destruct (listen_cases w)
    as [(Hstart & Hlisten)
       | [(Hstart & Hexit & Hlisten)
         | [(Hstart & Hexit & Hlisten) | (Hstart & Hexit & Hlisten)]]];
  rewrite Hlisten in *.

Ltac count_calls :=
  repeat (rewrite calls_app || rewrite calls_cons);
  rewrite ?calls_loop_trace by (intros []; simpl; congruence);
  rewrite ?calls_nil;
  simpl.

Lemma fires_cleanup (w : world) : fires (fst (cleanup w)) = [].
Proof.
  unfold cleanup.
  destruct (recorder_stop_raises w), (porcupine_delete_raises w); reflexivity.
Qed.

Lemma main_fires (w : world) (c : cli) :
  fires (fst (main w c)) = []
  \/ fires (fst (main w c)) = fires (loop_trace initial_trigger_time (frames w)).
Proof.
  main_run w c; try (left; reflexivity).
  cbn [fst]. unfold setup_calls. rewrite fires_app. cbn [fires app].
  listen_run w; cbn [fst fires].
  - left. reflexivity.
  - right. reflexivity.
  - right. rewrite fires_app. cbn [fires]. rewrite fires_cleanup.
    apply app_nil_r.
  - right. rewrite fires_app, fires_cleanup. apply app_nil_r.
Qed.

(** X7: the debounce guarantee holds of the whole program: for every
    command line and every behaviour of the libraries, two invocations
    of the action in one run of [main] are more than [DEBOUNCE_SECONDS]
    apart, and no invocation happens at a clock reading of
    [DEBOUNCE_SECONDS] or less. *)
Theorem main_debounces_action (w : world) (c : cli) :
  (forall t, In t (fires (fst (main w c))) -> DEBOUNCE_SECONDS < t)
  /\ (forall i j ti tj,
         (i < j)%nat ->
         nth_error (fires (fst (main w c))) i = Some ti ->
         nth_error (fires (fst (main w c))) j = Some tj ->
         DEBOUNCE_SECONDS < tj - ti).
Proof.
  assert (Hsp : spaced initial_trigger_time (fires (fst (main w c)))).
  { destruct (main_fires w c) as [-> | ->]; [exact I | apply loop_spaced]. }
  split.
  - intros t Hin. apply In_nth_error in Hin as [n Hn].
    pose proof (spaced_nth _ _ n t Hsp Hn) as H.
    unfold initial_trigger_time in H. lra.
  - intros i j ti tj. apply (spaced_pair _ _ i j ti tj Hsp).
Qed.

Lemma main_debounces_action_witness :
  DEBOUNCE_SECONDS < 100.
Proof.
  apply (proj1 (main_debounces_action
                  (sample_world None [Detection 0 100; Detection 0 101] false false)
                  no_options) 100).
  vm_compute. tauto.
Defined.

(** X8: in no run does [main] create the detector or start the recorder
    twice, delete the detector more often than it asked for one, or stop
    the recorder more often than it started it; and after a failed
    [pvporcupine.create] it calls [porcupine.delete()] not at all. *)
Theorem main_releases_at_most_once (w : world) (c : cli) :
  (calls is_create (fst (main w c)) <= 1)%nat
  /\ (calls is_start (fst (main w c)) <= 1)%nat
  /\ (calls is_delete (fst (main w c)) <= calls is_create (fst (main w c)))%nat
  /\ (calls is_stop (fst (main w c)) <= calls is_start (fst (main w c)))%nat
  /\ (forall e,
         opt_list_devices c = false ->
         access_key (parse_args (os_environ w) c) <> PLACEHOLDER_KEY ->
         create_outcome w (parse_args (os_environ w) c) = CreateFailed e ->
         calls is_delete (fst (main w c)) = 0%nat).
Proof.
  main_run w c;
    try (repeat split; try (unfold calls; simpl; lia);
         intros; try congruence; reflexivity).
  unfold setup_calls. cbn [fst].
  assert (Hc : forall kind,
             (calls kind (fst (cleanup w))
              <= (if kind RecorderStop then 1 else 0)
                 + (if kind PorcupineDelete then 1 else 0)
                 + (if kind (Print MsgGoodbye) then 1 else 0))%nat).
  { intro kind. unfold cleanup.
    destruct (recorder_stop_raises w), (porcupine_delete_raises w);
      simpl; count_calls;
      destruct (kind RecorderStop), (kind PorcupineDelete),
        (kind (Print MsgGoodbye)); simpl; lia. }
  pose proof (Hc is_create). pose proof (Hc is_start).
  pose proof (Hc is_delete). pose proof (Hc is_stop). simpl in *.
  listen_run w; cbn [fst]; count_calls;
    (repeat split; try lia; intros; congruence).
Qed.

Ltac not_started H :=
  exfalso; unfold list_audio_devices in H; simpl in H; intuition discriminate.

Lemma cleanup_calls (w : world) :
  calls is_stop (fst (cleanup w)) = 1%nat
  /\ calls is_delete (fst (cleanup w))
     = (if recorder_stop_raises w then 0 else 1)%nat
  /\ (In (Print MsgGoodbye) (fst (cleanup w)) <-> snd (cleanup w) = true)
  /\ ~ In (Print MsgStopping) (fst (cleanup w)).
Proof.
  unfold cleanup.
  destruct (recorder_stop_raises w), (porcupine_delete_raises w);
    simpl; repeat split; try reflexivity; intuition discriminate.
Qed.

(** ** Leaving the loop *)

Lemma calls_none (kind : effect -> bool) (tr : list effect) (e : effect) :
  calls kind tr = 0%nat -> kind e = true -> ~ In e tr.
Proof.
  unfold calls. intros Hzero He Hin.
  assert (Hf : In e (filter kind tr)) by (apply filter_In; split; assumption).
  destruct (filter kind tr); [exact Hf | discriminate].
Qed.

(** C6, as stated, with a [recorder.stop()] that raises: the loop is
    left by Ctrl+C, [recorder.stop()] is called, and the exception it
    raises leaves the [finally] block before [porcupine.delete()]. *)
Lemma stop_failure_skips_detector_delete :
  snd (loop initial_trigger_time
         (frames (sample_world None [Detection (-1) 100; KeyboardInterrupt]
                    true false))) = Interrupted
  /\ In RecorderStop
       (fst (main (sample_world None [Detection (-1) 100; KeyboardInterrupt]
                     true false) no_options))
  /\ ~ In PorcupineDelete
       (fst (main (sample_world None [Detection (-1) 100; KeyboardInterrupt]
                     true false) no_options)).
Proof.
  split; [reflexivity | split].
  - vm_compute. tauto.
  - vm_compute. intuition discriminate.
Qed.

(** C6, amended: when the loop is left by an interrupt, [recorder.stop()]
    is called, and [porcupine.delete()] is called after it whenever
    [recorder.stop()] returns, also when [porcupine.delete()] itself
    then raises; [main] returns when neither raises.  When
    [recorder.stop()] raises, it is the last call [main] makes:
    [porcupine.delete()] is not called and the exception leaves
    [main]. *)
Theorem interrupt_stops_recorder_then_deletes_detector (w : world) (c : cli) :
  In RecorderStart (fst (main w c)) ->
  recorder_start_raises w = false ->
  snd (loop initial_trigger_time (frames w)) = Interrupted ->
  In RecorderStop (fst (main w c))
  /\ (recorder_stop_raises w = false ->
      exists before between after,
        fst (main w c)
        = before ++ RecorderStop :: between ++ PorcupineDelete :: after)
  /\ (recorder_stop_raises w = false -> porcupine_delete_raises w = false ->
      snd (main w c) = Returned)
  /\ (recorder_stop_raises w = true ->
      ~ In PorcupineDelete (fst (main w c))
      /\ (exists before, fst (main w c) = before ++ [RecorderStop])
      /\ snd (main w c) = Raised).
Proof.
  intros Hreach Hstart Hexit.
  main_run w c; cbn [fst snd] in *; try (not_started Hreach).
  listen_run w; try congruence. cbn [fst snd]. clear Hreach.
  unfold cleanup.
  split; [|split; [|split]].
  - apply in_or_app. right. right. apply in_or_app. right. right.
    destruct (recorder_stop_raises w), (porcupine_delete_raises w);
      left; reflexivity.
  - intros ->.
    exists (setup_calls (parse_args (os_environ w) c)
              (selection_line w (parse_args (os_environ w) c))
              (detector_keyword w (parse_args (os_environ w) c)) fl
              (wake_word_name w (parse_args (os_environ w) c))
              ++ RecorderStart :: loop_trace initial_trigger_time (frames w)
              ++ [Print MsgStopping]), [].
    destruct (porcupine_delete_raises w).
    + exists []. cbn [fst app]. rewrite <- !app_assoc. cbn [app].
      rewrite <- app_assoc. reflexivity.
    + exists [Print MsgGoodbye]. cbn [fst app]. rewrite <- !app_assoc.
      cbn [app]. rewrite <- app_assoc. reflexivity.
  - intros -> ->. reflexivity.
  - intros ->. cbn [fst snd]. split; [|split].
    + apply (calls_none is_delete); [|reflexivity].
      unfold setup_calls. count_calls. reflexivity.
    + exists (setup_calls (parse_args (os_environ w) c)
                (selection_line w (parse_args (os_environ w) c))
                (detector_keyword w (parse_args (os_environ w) c)) fl
                (wake_word_name w (parse_args (os_environ w) c))
                ++ RecorderStart :: loop_trace initial_trigger_time (frames w)
                ++ [Print MsgStopping]).
      rewrite <- !app_assoc. cbn [app]. rewrite <- app_assoc. reflexivity.
    + reflexivity.
Qed.

Lemma interrupt_stops_recorder_then_deletes_detector_witness :
  In RecorderStop
    (fst (main (sample_world None [Detection 0 100; KeyboardInterrupt]
                  false true) no_options))
  /\ (exists before between after,
         fst (main (sample_world None [Detection 0 100; KeyboardInterrupt]
                      false true) no_options)
         = before ++ RecorderStop :: between ++ PorcupineDelete :: after)
  /\ ~ In PorcupineDelete
       (fst (main (sample_world None [Detection 0 100; KeyboardInterrupt]
                     true false) no_options))
  /\ snd (main (sample_world None [Detection 0 100; KeyboardInterrupt]
                  true false) no_options) = Raised.
Proof.
  destruct (interrupt_stops_recorder_then_deletes_detector
              (sample_world None [Detection 0 100; KeyboardInterrupt] false true)
              no_options) as (Hstop & Hdelete & _).
  - vm_compute. tauto.
  - reflexivity.
  - reflexivity.
  - destruct (interrupt_stops_recorder_then_deletes_detector
                (sample_world None [Detection 0 100; KeyboardInterrupt] true false)
                no_options) as (_ & _ & _ & Hskip).
    + vm_compute. tauto.
    + reflexivity.
    + reflexivity.
    + destruct (Hskip eq_refl) as (Hnone & _ & Hraised).
      split; [exact Hstop | split; [apply Hdelete; reflexivity|]].
      split; [exact Hnone | exact Hraised].
Defined.

(** X9: whenever [main] returns normally, what it acquired has been
    released exactly once: a detector that was created has had its
    [delete()] called, and a recorder that was started has had its
    [stop()] called. *)
Theorem normal_return_has_released_everything (w : world) (c : cli) :
  snd (main w c) = Returned ->
  (forall fl,
      opt_list_devices c = false ->
      access_key (parse_args (os_environ w) c) <> PLACEHOLDER_KEY ->
      create_outcome w (parse_args (os_environ w) c) = Created fl ->
      calls is_delete (fst (main w c)) = 1%nat)
  /\ (In RecorderStart (fst (main w c)) ->
      calls is_stop (fst (main w c)) = 1%nat).
Proof.
  intro Hret.
  destruct (cleanup_calls w) as (Hstop & Hdelete & _ & _).
  main_run w c; cbn [fst snd] in *.
  - split; [intros; congruence | intro H; not_started H].
  - split; [intros; congruence | intro H; not_started H].
  - split; [intros; congruence | intro H; not_started H].
  - split; [intros; reflexivity | intro H; not_started H].
  - unfold setup_calls.
    listen_run w; cbn [fst snd] in *; try discriminate.
    assert (Hdone : snd (cleanup w) = true)
      by (destruct (snd (cleanup w)); [reflexivity | discriminate]).
    apply cleanup_stops_recorder in Hdone as [Hs _]. rewrite Hs in Hdelete.
    split; intros; count_calls; lia.
Qed.

Lemma normal_return_has_released_everything_witness :
  calls is_delete
    (fst (main (sample_world None [Detection 0 100; KeyboardInterrupt]
                  false false) no_options)) = 1%nat
  /\ calls is_stop
       (fst (main (sample_world None [Detection 0 100; KeyboardInterrupt]
                     false false) no_options)) = 1%nat.
Proof.
  destruct (normal_return_has_released_everything
              (sample_world None [Detection 0 100; KeyboardInterrupt]
                 false false) no_options) as [Hdelete Hstop].
  - reflexivity.
  - split.
    + apply (Hdelete 512%Z); [reflexivity | discriminate | reflexivity].
    + apply Hstop. vm_compute. tauto.
Defined.

(** X10: [recorder.start()] stands outside every [try]: when it raises,
    the exception leaves [main] with the detector and the recorder both
    created and neither released, and the action has not run. *)
Theorem start_failure_releases_nothing (w : world) (c : cli) :
  In RecorderStart (fst (main w c)) ->
  recorder_start_raises w = true ->
  snd (main w c) = Raised
  /\ calls is_create (fst (main w c)) = 1%nat
  /\ calls is_delete (fst (main w c)) = 0%nat
  /\ calls is_stop (fst (main w c)) = 0%nat
  /\ fires (fst (main w c)) = [].
Proof.
  intros Hreach Hraises.
  main_run w c; cbn [fst snd] in *; try (not_started Hreach).
  unfold setup_calls.
  listen_run w; try congruence.
  cbn [fst snd]. repeat split.
Qed.

Lemma start_failure_releases_nothing_witness :
  snd (main {| os_environ := {| PICOVOICE_ACCESS_KEY := None;
                                JUBILEE_KEYWORD_PATH := None |};
               path_exists := fun _ => false;
               get_available_devices := [];
               pvporcupine_create := fun _ _ _ => Created 512;
               PvRecorder_init := fun _ _ => true;
               recorder_start_raises := true;
               frames := [Detection 0 100];
               recorder_stop_raises := false;
               porcupine_delete_raises := false |} no_options) = Raised.
Proof.
  apply (start_failure_releases_nothing
           {| os_environ := {| PICOVOICE_ACCESS_KEY := None;
                               JUBILEE_KEYWORD_PATH := None |};
              path_exists := fun _ => false;
              get_available_devices := [];
              pvporcupine_create := fun _ _ _ => Created 512;
              PvRecorder_init := fun _ _ => true;
              recorder_start_raises := true;
              frames := [Detection 0 100];
              recorder_stop_raises := false;
              porcupine_delete_raises := false |} no_options).
  - vm_compute. tauto.
  - reflexivity.
Defined.

(** X11: when [recorder.read()] raises something other than a keyboard
    interrupt, the [finally] block still runs ([recorder.stop()] is
    called, and [porcupine.delete()] after it when it returns), the
    stopping line of the interrupt handler is not printed, and the
    exception leaves [main] whatever the releases do. *)
Theorem crash_runs_cleanup_and_raises (w : world) (c : cli) :
  In RecorderStart (fst (main w c)) ->
  recorder_start_raises w = false ->
  snd (loop initial_trigger_time (frames w)) = Crashed ->
  snd (main w c) = Raised
  /\ calls is_stop (fst (main w c)) = 1%nat
  /\ calls is_delete (fst (main w c))
     = (if recorder_stop_raises w then 0 else 1)%nat
  /\ ~ In (Print MsgStopping) (fst (main w c)).
Proof.
  intros Hreach Hstart Hexit.
  destruct (cleanup_calls w) as (Hstop & Hdelete & _ & Hquiet).
  main_run w c; cbn [fst snd] in *; try (not_started Hreach).
  unfold setup_calls.
  listen_run w; try congruence.
  cbn [fst snd]. split; [reflexivity | split; [|split]].
  - count_calls. lia.
  - count_calls. lia.
  - clear Hreach. intro Hin. simpl in Hin.
    pose proof (selection_line_is_selection w (parse_args (os_environ w) c))
      as Hline.
    destruct Hin as [H | [H | [H | [H | [H | H]]]]]; try discriminate.
    { injection H as H. rewrite H in Hline. discriminate. }
    apply in_app_or in H as [H | H]; [|exact (Hquiet H)].
    pose proof (loop_trace_body_effects (frames w) initial_trigger_time) as Hall.
    rewrite forallb_forall in Hall. specialize (Hall _ H). discriminate.
Qed.

Lemma crash_runs_cleanup_and_raises_witness :
  snd (main (sample_world None [Detection 0 100; Fault] false false)
         no_options) = Raised
  /\ calls is_stop
       (fst (main (sample_world None [Detection 0 100; Fault] false false)
               no_options)) = 1%nat.
Proof.
  destruct (crash_runs_cleanup_and_raises
              (sample_world None [Detection 0 100; Fault] false false)
              no_options) as (Hraised & Hstop & _).
  - vm_compute. tauto.
  - reflexivity.
  - reflexivity.
  - split; [exact Hraised | exact Hstop].
Defined.

Lemma loop_never_ends_on_detections (evs : list event) (last : Q) :
  forallb is_detection evs = true -> snd (loop last evs) = Listening.
Proof.
  intro Hall. destruct (loop_app evs [] last Hall) as (_ & _ & Hx).
  rewrite app_nil_r in Hx. exact Hx.
Qed.

(** X12: a run that got as far as [recorder.start()] returns normally
    in one way only: the loop was left by a keyboard interrupt and both
    releases returned.  Any other exception, and any failing release,
    leaves [main] as an exception. *)
Theorem listening_run_returns_only_after_interrupt (w : world) (c : cli) :
  In RecorderStart (fst (main w c)) ->
  (snd (main w c) = Returned
   <-> recorder_start_raises w = false
       /\ snd (loop initial_trigger_time (frames w)) = Interrupted
       /\ recorder_stop_raises w = false
       /\ porcupine_delete_raises w = false).
Proof.
  intro Hreach.
  destruct (cleanup_stops_recorder w) as (_ & _ & _ & Hdone).
  main_run w c; cbn [fst snd] in *; try (not_started Hreach).
  listen_run w; cbn [snd]; rewrite ?Hstart, ?Hexit.
  - split; [discriminate | intros (H & _); discriminate].
  - split; [discriminate | intros (_ & H & _); discriminate].
  - destruct (snd (cleanup w)).
    + split; [intros _ | reflexivity].
      destruct Hdone as [Hdone _]. destruct (Hdone eq_refl) as [Hs Hd].
      repeat split; assumption.
    + split; [discriminate|]. intros (_ & _ & Hs & Hd).
      destruct Hdone as [_ Hdone]. specialize (Hdone (conj Hs Hd)).
      discriminate.
  - split; [discriminate | intros (_ & H & _); discriminate].
Qed.

Lemma listening_run_returns_only_after_interrupt_witness :
  snd (main (sample_world None [Detection 0 100; KeyboardInterrupt]
               false false) no_options) = Returned
  <-> recorder_start_raises
        (sample_world None [Detection 0 100; KeyboardInterrupt] false false)
      = false
      /\ snd (loop initial_trigger_time
                (frames (sample_world None [Detection 0 100; KeyboardInterrupt]
                           false false))) = Interrupted
      /\ recorder_stop_raises
           (sample_world None [Detection 0 100; KeyboardInterrupt] false false)
         = false
      /\ porcupine_delete_raises
           (sample_world None [Detection 0 100; KeyboardInterrupt] false false)
         = false.
Proof.
  apply (listening_run_returns_only_after_interrupt
           (sample_world None [Detection 0 100; KeyboardInterrupt] false false)
           no_options).
  vm_compute. tauto.
Defined.

(** X13: the loop has no exit of its own: as long as every pass runs
    to its end (no call inside the [try] raises), a run that started
    listening is still listening, however many frames and matches it
    has seen, and has released nothing. *)
Theorem detections_never_end_the_loop (w : world) (c : cli) :
  In RecorderStart (fst (main w c)) ->
  recorder_start_raises w = false ->
  forallb is_detection (frames w) = true ->
  snd (main w c) = StillListening
  /\ calls is_stop (fst (main w c)) = 0%nat
  /\ calls is_delete (fst (main w c)) = 0%nat.
Proof.
  intros Hreach Hstart Hall.
  pose proof (loop_never_ends_on_detections (frames w) initial_trigger_time Hall)
    as Hlistening.
  main_run w c; cbn [fst snd] in *; try (not_started Hreach).
  unfold setup_calls.
  listen_run w; try congruence.
  cbn [fst snd]. split; [reflexivity | split; count_calls; reflexivity].
Qed.

Lemma detections_never_end_the_loop_witness :
  snd (main (sample_world None [Detection 0 100; Detection (-1) 101;
                                Detection 0 103] false false)
         no_options) = StillListening.
Proof.
  apply (detections_never_end_the_loop
           (sample_world None [Detection 0 100; Detection (-1) 101;
                               Detection 0 103] false false)
           no_options).
  - vm_compute. tauto.
  - reflexivity.
  - reflexivity.
Defined.

(** ** More on the keyword selection *)

Lemma existing_path_some (ex : string -> bool) (o : option string) (p : string) :
  existing_path ex o = Some p <-> o = Some p /\ p <> ""%string /\ ex p = true.
Proof.
  unfold existing_path. destruct o as [s|].
  - destruct (String.eqb_spec s "") as [-> | Hne]; simpl.
    + split; [discriminate | intros (H & Hp & _)].
      injection H as <-. contradiction.
    + destruct (ex s) eqn:Es.
      * split.
        -- intro H. injection H as <-. repeat split; assumption.
        -- intros (H & _). exact H.
      * split; [discriminate | intros (H & _ & Hex)].
        injection H as <-. congruence.
  - split; [discriminate | intros (H & _); discriminate].
Qed.



(** X15: the branch that loads the model named by the environment runs
    only when [--keyword-path] was typed with a path that is empty or
    names no file, [--use-jarvis] was not given, and the environment's
    own path names an existing file.  Without [--keyword-path] on the
    command line that branch is never taken. *)
Theorem environment_branch_needs_explicit_keyword_path (w : world) (c : cli)
    (q : string) :
  selection_line w (parse_args (os_environ w) c) = MsgLoadingCustomFromEnv q ->
  (exists p,
      opt_keyword_path c = Some p
      /\ (p = ""%string \/ path_exists w p = false))
  /\ opt_use_jarvis c = false
  /\ JUBILEE_KEYWORD_PATH (os_environ w) = Some q
  /\ path_exists w q = true.
Proof.
  unfold selection_line, select_keyword, CUSTOM_KEYWORD_PATH. simpl use_jarvis.
  destruct (existing_path (path_exists w)
              (keyword_path (parse_args (os_environ w) c))) as [p|] eqn:Ecli;
    [discriminate|].
  destruct (opt_use_jarvis c); [discriminate|].
  destruct (existing_path (path_exists w) (JUBILEE_KEYWORD_PATH (os_environ w)))
    as [q'|] eqn:Eenv; [|discriminate].
  cbn [fst]. intro H. injection H as ->.
  apply existing_path_some in Eenv as (Henv & Hne & Hex).
  repeat split; try assumption.
  simpl keyword_path in Ecli. unfold CUSTOM_KEYWORD_PATH in Ecli.
  destruct (opt_keyword_path c) as [p|].
  - exists p. split; [reflexivity|].
    destruct (String.eqb_spec p "") as [-> | Hp]; [left; reflexivity|].
    right. destruct (path_exists w p) eqn:Ep; [|reflexivity].
    rewrite (proj2 (existing_path_some (path_exists w) (Some p) p)
               (conj eq_refl (conj Hp Ep))) in Ecli.
    discriminate.
  - rewrite (proj2 (existing_path_some (path_exists w) _ q)
               (conj Henv (conj Hne Hex))) in Ecli.
    discriminate.
Qed.

Lemma environment_branch_needs_explicit_keyword_path_witness :
  (exists p,
      opt_keyword_path
        {| opt_list_devices := false; opt_device := None;
           opt_sensitivity := None; opt_access_key := None;
           opt_keyword_path := Some "missing.ppn"%string;
           opt_use_jarvis := false |} = Some p
      /\ (p = ""%string
          \/ path_exists
               (sample_world (Some "hey_jubilee.ppn"%string) [] false false) p
             = false)).
Proof.
  apply (environment_branch_needs_explicit_keyword_path
           (sample_world (Some "hey_jubilee.ppn"%string) [] false false)
           {| opt_list_devices := false; opt_device := None;
              opt_sensitivity := None; opt_access_key := None;
              opt_keyword_path := Some "missing.ppn"%string;
              opt_use_jarvis := false |}
           "hey_jubilee.ppn"%string).
  reflexivity.
Defined.



(** ** What [main] prints *)

Lemma prints_In (tr : list effect) (m : message) :
  In (Print m) tr <-> In m (prints tr).
Proof.
  induction tr as [|e tr IH]; [reflexivity|].
  destruct e; simpl; rewrite <- IH;
    try (split; [intros [H | H]; [discriminate | exact H]
                | intro H; right; exact H]).
  split; (intros [H | H]; [left; congruence | right; exact H]).
Qed.

Lemma prints_app (tr1 tr2 : list effect) :
  prints (tr1 ++ tr2) = prints tr1 ++ prints tr2.
Proof.
  induction tr1 as [|e tr1 IH]; [reflexivity|].
  destruct e; simpl; rewrite ?IH; reflexivity.
Qed.

Lemma prints_loop_trace (last : Q) (evs : list event) :
  prints (loop_trace last evs) = [].
Proof.
  pose proof (loop_trace_body_effects evs last) as Hall.
  induction (loop_trace last evs) as [|e tr IH]; [reflexivity|].
  simpl in Hall. apply andb_prop in Hall as [He Hall].
  destruct e; try discriminate; simpl; exact (IH Hall).
Qed.

Lemma prints_listen (w : world) (m : message) :
  In m (prints (fst (listen w))) -> m = MsgStopping \/ m = MsgGoodbye.
Proof.
  assert (Hclean : In m (prints (fst (cleanup w))) -> m = MsgGoodbye).
  { unfold cleanup.
    destruct (recorder_stop_raises w), (porcupine_delete_raises w); simpl;
      intuition congruence. }
  listen_run w; cbn [fst prints]; rewrite ?prints_app, ?prints_loop_trace;
    simpl; intuition congruence.
Qed.

(** X17: the set-up guidance is printed only when the placeholder
    literal was handed over in so many words, through [--access-key] or
    through [PICOVOICE_ACCESS_KEY].  The key built into the script is
    not the placeholder, so a run with neither never prints it. *)
Theorem setup_guidance_needs_explicit_placeholder (w : world) (c : cli) :
  In (Print MsgSetupRequired) (fst (main w c)) ->
  opt_list_devices c = false
  /\ (opt_access_key c = Some PLACEHOLDER_KEY
      \/ (opt_access_key c = None
          /\ PICOVOICE_ACCESS_KEY (os_environ w) = Some PLACEHOLDER_KEY)).
Proof.
  intro Hin. apply prints_In in Hin.
  pose proof (selection_line_is_selection w (parse_args (os_environ w) c))
    as Hline.
  main_run w c; cbn [fst] in Hin.
  - simpl in Hin. intuition discriminate.
  - split; [exact Hlist|]. clear Hin. simpl in Hkey.
    destruct (opt_access_key c) as [k|]; simpl in Hkey.
    + left. congruence.
    + right. split; [reflexivity|].
      destruct (PICOVOICE_ACCESS_KEY (os_environ w)) as [k|]; simpl in Hkey;
        [congruence | discriminate].
  - simpl in Hin. destruct Hin as [H | [H | []]].
    + rewrite H in Hline. discriminate.
    + destruct e; discriminate.
  - simpl in Hin. destruct Hin as [H | [H | []]].
    + rewrite H in Hline. discriminate.
    + discriminate.
  - unfold setup_calls in Hin. rewrite prints_app in Hin. simpl in Hin.
    destruct Hin as [H | [H | H]].
    + rewrite H in Hline. discriminate.
    + discriminate.
    + destruct (prints_listen w _ H); discriminate.
Qed.

Lemma setup_guidance_needs_explicit_placeholder_witness :
  opt_list_devices
    {| opt_list_devices := false; opt_device := None;
       opt_sensitivity := None; opt_access_key := Some PLACEHOLDER_KEY;
       opt_keyword_path := None; opt_use_jarvis := false |} = false
  /\ (opt_access_key
        {| opt_list_devices := false; opt_device := None;
           opt_sensitivity := None; opt_access_key := Some PLACEHOLDER_KEY;
           opt_keyword_path := None; opt_use_jarvis := false |}
      = Some PLACEHOLDER_KEY
      \/ (opt_access_key
            {| opt_list_devices := false; opt_device := None;
               opt_sensitivity := None; opt_access_key := Some PLACEHOLDER_KEY;
               opt_keyword_path := None; opt_use_jarvis := false |} = None
          /\ PICOVOICE_ACCESS_KEY
               (os_environ (sample_world None [] false false))
             = Some PLACEHOLDER_KEY)).
Proof.
  apply (setup_guidance_needs_explicit_placeholder
           (sample_world None [] false false)
           {| opt_list_devices := false; opt_device := None;
              opt_sensitivity := None; opt_access_key := Some PLACEHOLDER_KEY;
              opt_keyword_path := None; opt_use_jarvis := false |}).
  vm_compute. tauto.
Defined.

(** ** Bursts, and when the action can run at all *)

Lemma loop_quiet_within_interval (evs : list event) (last : Q) :
  (forall k t, In (Detection k t) evs -> t - last <= DEBOUNCE_SECONDS) ->
  fires (loop_trace last evs) = [] /\ loop_last last evs = last.
Proof.
  induction evs as [|e evs IH]; intro Hnear; [split; reflexivity|].
  destruct e as [k t| |]; [|split; reflexivity..].
  rewrite fires_loop_detection.
  destruct (loop_detection last k t evs) as [_ ->].
  rewrite (on_detection_suppress last k t (Hnear k t (or_introl eq_refl))).
  apply IH. intros k' t' Hin. apply (Hnear k' t'). right. exact Hin.
Qed.

(** X18: a burst triggers once: when a match fires at reading [t0] and
    every later detection of the run carries a reading no more than the
    debounce interval past [t0] (earlier readings, from a clock set
    back, included), the action is invoked that one time only and
    [last_trigger_time] stays [t0]. *)
Theorem burst_after_firing_triggers_once (evs : list event) (last : Q)
    (k0 : Z) (t0 : Q) :
  (0 <= k0)%Z ->
  DEBOUNCE_SECONDS < t0 - last ->
  (forall k t, In (Detection k t) evs -> t - t0 <= DEBOUNCE_SECONDS) ->
  fires (loop_trace last (Detection k0 t0 :: evs)) = [t0]
  /\ loop_last last (Detection k0 t0 :: evs) = t0.
Proof.
  intros Hk Hgt Hnear.
  rewrite fires_loop_detection.
  destruct (loop_detection last k0 t0 evs) as [_ ->].
  rewrite (on_detection_fire last k0 t0 Hk Hgt). cbn [fst snd fires app].
  destruct (loop_quiet_within_interval evs t0 Hnear) as [-> ->].
  split; reflexivity.
Qed.

Lemma burst_after_firing_triggers_once_witness :
  fires (loop_trace 0 (Detection 0 100
                         :: [Detection 0 100.5; Detection 0 99; Detection 0 102]))
  = [100]
  /\ loop_last 0 (Detection 0 100
                    :: [Detection 0 100.5; Detection 0 99; Detection 0 102])
     = 100.
Proof.
  apply (burst_after_firing_triggers_once
           [Detection 0 100.5; Detection 0 99; Detection 0 102] 0 0 100).
  - lia.
  - reflexivity.
  - intros k t [H | [H | [H | []]]]; injection H as _ <-; discriminate.
Defined.

(** X19: the action runs only in a run whose set-up went through: it is
    never invoked under [--list-devices], with the placeholder
    credential, after a failed detector or recorder creation, or after a
    failed [recorder.start()]; and every invocation comes after the call
    of [recorder.start()]. *)
Theorem action_needs_completed_setup (w : world) (c : cli) :
  fires (fst (main w c)) <> [] ->
  opt_list_devices c = false
  /\ access_key (parse_args (os_environ w) c) <> PLACEHOLDER_KEY
  /\ (exists fl,
         create_outcome w (parse_args (os_environ w) c) = Created fl
         /\ PvRecorder_init w (device (parse_args (os_environ w) c)) fl = true)
  /\ recorder_start_raises w = false
  /\ exists before after,
       fst (main w c) = before ++ RecorderStart :: after
       /\ fires before = [].
Proof.
  intro Hfired.
  main_run w c; cbn [fst] in *;
    try (exfalso; apply Hfired; reflexivity).
  unfold setup_calls in *. rewrite fires_app in Hfired. cbn [fires app] in Hfired.
  split; [exact Hlist | split; [exact Hkey | split]].
  { exists fl. split; assumption. }
  listen_run w; cbn [fst] in *.
  - exfalso. apply Hfired. reflexivity.
  - split; [exact Hstart|]. eexists. eexists. split; reflexivity.
  - split; [exact Hstart|]. eexists. eexists. split; reflexivity.
  - split; [exact Hstart|]. eexists. eexists. split; reflexivity.
Qed.

Lemma action_needs_completed_setup_witness :
  recorder_start_raises
    (sample_world None [Detection 0 100] false false) = false.
Proof.
  apply (action_needs_completed_setup
           (sample_world None [Detection 0 100] false false) no_options).
  discriminate.
Defined.
